(** * The contact-form relay: [contact-form/app.py]

    A shallow embedding of the one request handler of the service,
    [email], the POST /email route.  The handler is written once, as a
    program over the calls it makes into its runtime (the request object,
    [logging], OpenTelemetry, [os.environ] and the SendGrid client), and is
    given two semantics: a sequential one ([run]), used for the
    single-request properties, and an interleaved one ([exec]), used for
    the independence of concurrent requests. *)

From stdpp Require Import gmap strings list pretty.

Local Open Scope Z_scope.

(** ** Python values *)

(** What [await request.json()] yields: the Python image of a JSON
    document.  A float is never inspected by the handler and is carried by
    its text; a [dict] is a finite map from string keys. *)
#[warnings="-register-all"] Inductive value : Type :=
| VNone
| VBool (b : bool)
| VInt (n : Z)
| VFloat (text : string)
| VStr (s : string)
| VList (l : list value)
| VDict (d : gmap string value).

(** The instances of Python's [Exception] that occur: the two lookup
    errors of [obj[key]], the [HTTPException] the handler raises, and
    whatever a library call raises, kept as its class name and its
    [str()]. *)
Inductive exn : Type :=
| KeyError (key : string)
| TypeError (msg : string)
| HTTPException (status_code : Z) (detail : string)
| LibraryError (cls : string) (text : string).

(** [str(e)].  A [KeyError] prints the [repr] of its key, which for the
    keys the handler uses is the key between single quotes; Starlette's
    [HTTPException] prints its code, a colon and its detail. *)
Definition str (e : exn) : string :=
  match e with
  | KeyError key => "'" +:+ key +:+ "'"
  | TypeError msg => msg
  | HTTPException status_code detail => pretty status_code +:+ ": " +:+ detail
  | LibraryError _ text => text
  end.

(** [obj[key]] for a string key (CPython 3.11 wording of the messages). *)
Definition getitem (obj : value) (key : string) : exn + value :=
  match obj with
  | VDict d =>
      match d !! key with
      | Some v => inr v
      | None => inl (KeyError key)
      end
  | VList _ => inl (TypeError "list indices must be integers or slices, not str")
  | VStr _ => inl (TypeError "string indices must be integers, not 'str'")
  | VNone => inl (TypeError "'NoneType' object is not subscriptable")
  | VBool _ => inl (TypeError "'bool' object is not subscriptable")
  | VInt _ => inl (TypeError "'int' object is not subscriptable")
  | VFloat _ => inl (TypeError "'float' object is not subscriptable")
  end.

(** ** The objects of the libraries *)

(** The request, as far as the handler looks at it: the outcome of
    [await request.json()]. *)
Record Request := { json : exn + value }.

(** [sendgrid.helpers.mail.Mail]: the keyword arguments the handler gives
    the constructor, and the attribute it assigns afterwards.
    [os.environ.get] yields [None] for an unset variable. *)
Record Mail := {
  to_emails : option string;
  from_email : option string;
  subject : value;
  html_content : string;
  reply_to : option value
}.

Record SendGridAPIClient := { api_key : option string }.

(** The provider's response, as far as the handler looks at it. *)
Record Response := { status_code : Z }.

Inductive StatusCode := UNSET | OK | ERROR.

(** [trace.Status(status_code, description)]. *)
Record Status := { code : StatusCode; description : option string }.

(** A span is known by the handle the tracer returns. *)
Definition Span := nat.

(** ** Calls into the runtime *)

(** Every step of the handler that leaves its own code, indexed by the
    type of what it returns: the subscript [obj[key]] and the calls into
    the request, [logging], OpenTelemetry, [os.environ] and SendGrid. *)
Inductive call : Type -> Type :=
| request_json (request : Request) : call value
| subscript (obj : value) (key : string) : call value
| logger_info (msg : string) : call unit
| logger_error (msg : string) (exc_info : exn) : call unit
| start_as_current_span (name : string) : call Span
| span_exit (span : Span) (exc : option exn) : call unit
| set_attribute (span : Span) (key : string) (v : value) : call unit
| set_status (span : Span) (status : Status) : call unit
| environ_get (key : string) : call (option string)
| Mail_new (to_emails from_email : option string) (subject : value)
    (html_content : string) : call Mail
| Mail_set_reply_to (message : Mail) (v : value) : call Mail
| SendGridAPIClient_new (api_key : option string) : call SendGridAPIClient
| send (sg : SendGridAPIClient) (message : Mail) : call Response.

(** A call together with how it ended: it raised, or it returned. *)
Record event := Event {
  ev_type : Type;
  ev_call : call ev_type;
  ev_result : exn + ev_type
}.
Arguments Event {ev_type} ev_call ev_result.

(** ** Handler programs *)

(** A program returns, raises, or makes a call and goes on from its
    result. *)
Inductive prog (A : Type) : Type :=
| Ret (a : A)
| Raise (e : exn)
| Call {X : Type} (c : call X) (k : exn + X -> prog A).
Arguments Ret {A} a.
Arguments Raise {A} e.
Arguments Call {A X} c k.

Fixpoint bind {A B : Type} (p : prog A) (f : A -> prog B) : prog B :=
  match p with
  | Ret a => f a
  | Raise e => Raise e
  | Call c k => Call c (fun r => bind (k r) f)
  end.

(** Ends the way [r] says. *)
Definition lift {A : Type} (r : exn + A) : prog A :=
  match r with
  | inl e => Raise e
  | inr a => Ret a
  end.

Definition perform {X : Type} (c : call X) : prog X := Call c lift.

(** Runs [p] and hands back how it ended instead of raising. *)
Fixpoint attempt {A : Type} (p : prog A) : prog (exn + A) :=
  match p with
  | Ret a => Ret (inr a)
  | Raise e => Ret (inl e)
  | Call c k => Call c (fun r => attempt (k r))
  end.

(** Programs are written with stdpp's monad notation, [x ← p; q]. *)
#[global] Instance prog_ret : MRet prog := @Ret.
#[global] Instance prog_bind : MBind prog := fun A B f p => bind p f.

(** [try: body except Exception as e: handler e]. *)
Definition try_except {A : Type} (body : prog A) (handler : exn -> prog A)
  : prog A :=
  r ← attempt body;
  match r with
  | inl e => handler e
  | inr a => Ret a
  end.

(** [with tracer.start_as_current_span(name) as span: body span].  The
    block is left by one call, [span_exit], with the exception in flight,
    if any.  The context manager does not swallow the exception; what it
    does to the span with it is [exit_status], below, and is read from the
    call by [span_told]. *)
Definition with_span {A : Type} (name : string) (body : Span -> prog A)
  : prog A :=
  span ← perform (start_as_current_span name);
  r ← attempt (body span);
  perform (span_exit span (match r with inl e => Some e | inr _ => None end));;
  lift r.

(** ** The runtime, and one request run on its own *)

(** What lies outside the handler and decides how its calls end: the
    process environment, the handle the tracer gives a new span, whether
    the SendGrid helpers raise, and what the provider answers.  The
    [logging] and OpenTelemetry calls and [os.environ.get] do not raise. *)
Record World := {
  environ : string -> option string;
  tracer_span : string -> Span;
  Mail_raises : option string -> option string -> value -> string -> option exn;
  reply_to_raises : Mail -> value -> option exn;
  client_raises : option string -> option exn;
  provider : SendGridAPIClient -> Mail -> exn + Response
}.

Definition unless {A : Type} (raises : option exn) (a : A) : exn + A :=
  match raises with
  | Some e => inl e
  | None => inr a
  end.

(** How a call ends in a given world.  A [Mail] that is built holds the
    arguments it was built from, and assigning [reply_to] stores the
    value. *)
Definition answer (w : World) {X : Type} (c : call X) : exn + X :=
  match c with
  | request_json request => json request
  | subscript obj key => getitem obj key
  | logger_info _ => inr tt
  | logger_error _ _ => inr tt
  | start_as_current_span name => inr (tracer_span w name)
  | span_exit _ _ => inr tt
  | set_attribute _ _ _ => inr tt
  | set_status _ _ => inr tt
  | environ_get key => inr (environ w key)
  | Mail_new t f s h =>
      unless (Mail_raises w t f s h)
        {| to_emails := t; from_email := f; subject := s;
           html_content := h; reply_to := None |}
  | Mail_set_reply_to message v =>
      unless (reply_to_raises w message v)
        {| to_emails := to_emails message; from_email := from_email message;
           subject := subject message; html_content := html_content message;
           reply_to := Some v |}
  | SendGridAPIClient_new k => unless (client_raises w k) {| api_key := k |}
  | send sg message => provider w sg message
  end.

(** Runs a program to its end in one world: the calls it made, in order,
    and how it ended. *)
Fixpoint run {A : Type} (w : World) (p : prog A) : list event * (exn + A) :=
  match p with
  | Ret a => ([], inr a)
  | Raise e => ([], inl e)
  | Call c k =>
      let r := answer w c in
      let '(tr, o) := run w (k r) in
      (Event c r :: tr, o)
  end.

(** ** What the framework makes of the handler's outcome *)

(** FastAPI answers a returned value as JSON with the route's default
    status 200, and an [HTTPException] with its status code and a body
    holding its detail; any other exception leaves the handler unanswered,
    for the server's own error handling. *)
Inductive http_response : Type :=
| JSONResponse (status : Z) (content : value)
| Unhandled (e : exn).

Definition respond (o : exn + value) : http_response :=
  match o with
  | inr content => JSONResponse 200 content
  | inl (HTTPException status_code detail) =>
      JSONResponse status_code (VDict {[ "detail" := VStr detail ]})
  | inl e => Unhandled e
  end.

(** ** Reading a trace *)

(** The exception a call raised, if it raised. *)
Definition raised (ev : event) : option exn :=
  match ev_result ev with
  | inl e => Some e
  | inr _ => None
  end.

Definition is_start_span (ev : event) : bool :=
  match ev_call ev with
  | start_as_current_span _ => true
  | _ => false
  end.

(** The events inside the span: those after the span was opened. *)
Fixpoint in_span (tr : list event) : list event :=
  match tr with
  | [] => []
  | ev :: tr' => if is_start_span ev then tr' else in_span tr'
  end.

(** A dispatch: the client and the mail given to [send], and how the
    provider answered. *)
Definition sent (ev : event) : option (SendGridAPIClient * Mail * (exn + Response)) :=
  match ev_call ev in call X return exn + X -> _ with
  | send sg message => fun r => Some (sg, message, r)
  | _ => fun _ => None
  end (ev_result ev).

Definition sends (tr : list event) : list (SendGridAPIClient * Mail * (exn + Response)) :=
  omap sent tr.

(** The arguments of a [Mail(...)] construction. *)
Definition constructed (ev : event) : option (option string * option string * value * string) :=
  match ev_call ev with
  | Mail_new t f s h => Some (t, f, s, h)
  | _ => None
  end.

(** The value of an assignment to [message.reply_to]. *)
Definition reply_to_assigned (ev : event) : option value :=
  match ev_call ev with
  | Mail_set_reply_to _ v => Some v
  | _ => None
  end.

(** [type(e).__name__]. *)
Definition class_name (e : exn) : string :=
  match e with
  | KeyError _ => "KeyError"
  | TypeError _ => "TypeError"
  | HTTPException _ _ => "HTTPException"
  | LibraryError cls _ => cls
  end.

(** When an exception leaves the block of [start_as_current_span], the
    context manager records it on the span and sets the status of the span
    to ERROR, described by the class and the text of the exception. *)
Definition exit_status (exc : exn) : Status :=
  {| code := ERROR; description := Some (class_name exc +:+ ": " +:+ str exc) |}.

(** What a span is told: by the handler, the attributes and the statuses
    it sets; by the context manager, the status it sets when an exception
    leaves the block. *)
Inductive span_op : Type :=
| Attribute (span : Span) (key : string) (v : value)
| SetStatus (span : Span) (status : Status).

Definition span_told (ev : event) : option span_op :=
  match ev_call ev with
  | set_attribute span key v => Some (Attribute span key v)
  | set_status span status => Some (SetStatus span status)
  | span_exit span (Some exc) => Some (SetStatus span (exit_status exc))
  | _ => None
  end.

Definition is_send (ev : event) : bool :=
  match ev_call ev with
  | send _ _ => true
  | _ => false
  end.

(** The events before the dispatch, and those after it. *)
Fixpoint before_send (tr : list event) : list event :=
  match tr with
  | [] => []
  | ev :: tr' => if is_send ev then [] else ev :: before_send tr'
  end.

Fixpoint after_send (tr : list event) : list event :=
  match tr with
  | [] => []
  | ev :: tr' => if is_send ev then tr' else after_send tr'
  end.

(** The lines given to [logger.info]. *)
Definition logged_info (ev : event) : option string :=
  match ev_call ev with
  | logger_info msg => Some msg
  | _ => None
  end.

(** The object and the key of a subscript [obj[key]]. *)
Definition looked_up (ev : event) : option (value * string) :=
  match ev_call ev with
  | subscript obj key => Some (obj, key)
  | _ => None
  end.

(** The four fields of a submission. *)
Definition fields : list string := ["name"; "email"; "subject"; "message"].

(** ** More to read in a trace *)

(** The key given to [SendGridAPIClient(...)]. *)
Definition client_built (ev : event) : option (option string) :=
  match ev_call ev with
  | SendGridAPIClient_new k => Some k
  | _ => None
  end.

(** The variable asked of [os.environ.get]. *)
Definition env_read (ev : event) : option string :=
  match ev_call ev with
  | environ_get key => Some key
  | _ => None
  end.

(** The message and the exception given to [logger.error]. *)
Definition logged_error (ev : event) : option (string * exn) :=
  match ev_call ev with
  | logger_error msg e => Some (msg, e)
  | _ => None
  end.

(** The name a span is opened with, and the handle and the exception in
    flight it is left with. *)
Definition span_opened (ev : event) : option string :=
  match ev_call ev with
  | start_as_current_span name => Some name
  | _ => None
  end.

Definition span_closed (ev : event) : option (Span * option exn) :=
  match ev_call ev with
  | span_exit span exc => Some (span, exc)
  | _ => None
  end.

(** The span that is told something. *)
Definition told_span (op : span_op) : Span :=
  match op with
  | Attribute span _ _ => span
  | SetStatus span _ => span
  end.

(** The values a span is told for one attribute, and the statuses it is
    set to. *)
Definition told_for (key : string) (op : span_op) : option value :=
  match op with
  | Attribute _ key' v => if String.eqb key key' then Some v else None
  | SetStatus _ _ => None
  end.

Definition status_set (op : span_op) : option Status :=
  match op with
  | Attribute _ _ _ => None
  | SetStatus _ status => Some status
  end.

(** The fields in the order in which the handler first looks them up. *)
Definition lookup_order : list string := ["subject"; "email"; "message"; "name"].

Definition missing (d : gmap string value) (key : string) : bool :=
  match d !! key with
  | Some _ => false
  | None => true
  end.

(** ** Many requests at once *)

(** The server while it handles several requests: what is left to run of
    each handler, and everything that happened so far, each event with the
    number of the request that made the call. *)
Record server := {
  threads : list (prog value);
  history : list (nat * event)
}.

(** With several requests in flight, the world that answers a call of
    request [i] may depend on all that happened so far, to any request. *)
Definition Worlds := list (nat * event) -> nat -> World.

(** Request [i] is scheduled and makes its next call, if one is left. *)
Definition step (ws : Worlds) (i : nat) (st : server) : server :=
  match threads st !! i with
  | Some (Call c k) =>
      let r := answer (ws (history st) i) c in
      {| threads := <[i := k r]> (threads st);
         history := history st ++ [(i, Event c r)] |}
  | _ => st
  end.

(** A schedule names, step by step, the request that runs next. *)
Definition exec (ws : Worlds) (schedule : list nat) (st : server) : server :=
  foldl (fun st i => step ws i st) st schedule.

(** The events of request [i]. *)
Definition local (i : nat) (h : list (nat * event)) : list event :=
  omap (fun x => if decide (x.1 = i) then Some x.2 else None) h.

(** How a handler ended, once nothing is left to run. *)
Definition finished {A : Type} (p : prog A) : option (exn + A) :=
  match p with
  | Ret a => Some (inr a)
  | Raise e => Some (inl e)
  | Call _ _ => None
  end.

(** Runs a program for as many calls as there are worlds in [wl], the
    n-th call answered by the n-th world: the calls made, and what is left
    to run. *)
Fixpoint follow {A : Type} (wl : list World) (p : prog A) : list event * prog A :=
  match p, wl with
  | Call c k, w :: wl' =>
      let r := answer w c in
      let '(tr, p') := follow wl' (k r) in
      (Event c r :: tr, p')
  | _, _ => ([], p)
  end.

(** ** The handler *)

Section Handler.

(** Python's [repr] of a value.  It is what an f-string prints for
    anything that is not a [str]. *)
Variable repr : value -> string.

(** [f"{v}"]. *)
Definition format_value (v : value) : string :=
  match v with
  | VStr s => s
  | _ => repr v
  end.

(** The handler of POST /email, statement by statement. *)
Definition email (request : Request) : prog value :=
  message_data ← perform (request_json request);
  perform (logger_info ("Received contact form data: " +:+ format_value message_data));;
  with_span "send_email" (fun span =>
    try_except
      (v ← perform (subscript message_data "subject");
       perform (set_attribute span "email.subject" v);;
       v ← perform (subscript message_data "email");
       perform (set_attribute span "email.from" v);;
       to_emails ← perform (environ_get "SENDGRID_TO_EMAIL");
       from_email ← perform (environ_get "SENDGRID_FROM_EMAIL");
       subject ← perform (subscript message_data "subject");
       m ← perform (subscript message_data "message");
       n ← perform (subscript message_data "name");
       message ← perform (Mail_new to_emails from_email subject
                     (format_value m +:+ "<br />From: " +:+ format_value n));
       v ← perform (subscript message_data "email");
       message ← perform (Mail_set_reply_to message v);
       api_key ← perform (environ_get "SENDGRID_API_KEY");
       sg ← perform (SendGridAPIClient_new api_key);
       response ← perform (send sg message);
       perform (logger_info ("SendGrid response: " +:+ pretty (status_code response)));;
       perform (set_attribute span "email.status" (VStr "success"));;
       perform (set_status span {| code := OK; description := None |});;
       Ret (VDict {[ "status" := VStr "success";
                     "code" := VInt (status_code response) ]}))
      (fun e =>
       perform (logger_error "Error sending email" e);;
       perform (set_attribute span "email.status" (VStr "error"));;
       perform (set_attribute span "email.error" (VStr (str e)));;
       perform (set_status span {| code := ERROR; description := Some (str e) |});;
       Raise (HTTPException 500 ("SendGrid Error: " +:+ str e)))).

(** The server as the requests arrive: one handler each, nothing done. *)
Definition serve (requests : list Request) : server :=
  {| threads := email <$> requests; history := [] |}.

(** One request on its own: the calls its handler made, and how the
    handler ended. *)
Definition trace (w : World) (request : Request) : list event :=
  (run w (email request)).1.

Definition outcome (w : World) (request : Request) : exn + value :=
  (run w (email request)).2.

End Handler.

(** The handler asks each of its questions once, at a fixed place of its
    run: the span at its third call, the recipient at its eighth, and so
    on.  [seen wl default] is the one world that answers each of them as
    the world at that place of [wl] does. *)
Definition seen (wl : list World) (default : World) : World := {|
  environ := fun key =>
    if String.eqb key "SENDGRID_TO_EMAIL" then environ (nth 7 wl default) key
    else if String.eqb key "SENDGRID_FROM_EMAIL" then environ (nth 8 wl default) key
    else environ (nth 15 wl default) key;
  tracer_span := tracer_span (nth 2 wl default);
  Mail_raises := Mail_raises (nth 12 wl default);
  reply_to_raises := reply_to_raises (nth 14 wl default);
  client_raises := client_raises (nth 16 wl default);
  provider := provider (nth 17 wl default)
|}.

(** ** Sample inputs *)

Definition join (sep : string) (l : list string) : string :=
  match l with
  | [] => ""
  | s :: l => foldl (fun acc t => acc +:+ sep +:+ t) s l
  end.

(** Python's [repr] on the values of the samples: exact where no string
    holds a quote, a backslash or a character that is escaped.  A dict is
    printed in the order of its keys in the map; the documents of the
    samples have their keys in that order. *)
Fixpoint sample_repr (v : value) : string :=
  match v with
  | VNone => "None"
  | VBool true => "True"
  | VBool false => "False"
  | VInt n => pretty n
  | VFloat text => text
  | VStr s => "'" +:+ s +:+ "'"
  | VList l => "[" +:+ join ", " (map sample_repr l) +:+ "]"
  | VDict d =>
      "{" +:+ join ", "
        (map_fold (fun k v acc => acc ++ ["'" +:+ k +:+ "': " +:+ sample_repr v]) [] d)
      +:+ "}"
  end.

Definition configured (key : string) : option string :=
  if decide (key = "SENDGRID_TO_EMAIL") then Some "owner@example.org"
  else if decide (key = "SENDGRID_FROM_EMAIL") then Some "form@example.org"
  else if decide (key = "SENDGRID_API_KEY") then Some "SG.key"
  else None.

Definition accepted : Response := {| status_code := 202 |}.

Definition unauthorized : exn :=
  LibraryError "UnauthorizedError" "HTTP Error 401: Unauthorized".

Definition not_json : exn :=
  LibraryError "JSONDecodeError" "Expecting value: line 1 column 1 (char 0)".

(** The mail helper refuses a content that begins like an API key: [SG.],
    letters or digits, a dot, letters or digits.  Its exception has no
    text. *)
Definition key_included : exn := LibraryError "ApiKeyIncludedException" "".

Definition alnum (c : Ascii.ascii) : bool :=
  let n := Ascii.nat_of_ascii c in
  ((48 <=? n) && (n <=? 57) || (65 <=? n) && (n <=? 90)
   || (97 <=? n) && (n <=? 122))%nat.

Fixpoint skip_alnum (s : string) : string :=
  match s with
  | String c s' => if alnum c then skip_alnum s' else s
  | EmptyString => s
  end.

Definition looks_like_key (s : string) : bool :=
  String.prefix "SG." s &&
  match s with
  | String _ (String _ (String _ (String c rest))) =>
      alnum c &&
      match skip_alnum rest with
      | String dot (String c' _) => String.eqb (String dot "") "." && alnum c'
      | _ => false
      end
  | _ => false
  end.

Definition validated (to_emails from_email : option string) (subject : value)
    (html_content : string) : option exn :=
  if looks_like_key html_content then Some key_included else None.

(** The provider accepts every mail. *)
Definition accepting : World := {|
  environ := configured;
  tracer_span := fun _ => 1%nat;
  Mail_raises := validated;
  reply_to_raises := fun _ _ => None;
  client_raises := fun _ => None;
  provider := fun _ _ => inr accepted
|}.

(** The provider refuses every mail. *)
Definition refusing : World := {|
  environ := configured;
  tracer_span := fun _ => 1%nat;
  Mail_raises := validated;
  reply_to_raises := fun _ _ => None;
  client_raises := fun _ => None;
  provider := fun _ _ => inl unauthorized
|}.

Definition submission (name email subject message : string) : value :=
  VDict {[ "name" := VStr name; "email" := VStr email;
           "message" := VStr message; "subject" := VStr subject ]}.

Definition ann_body : value :=
  submission "Ann" "ann@example.org" "Hello" "Hi there".

Definition ann : Request := {| json := inr ann_body |}.

Definition bob : Request :=
  {| json := inr (submission "Bob" "bob@example.org" "Quote" "How much?") |}.

(** The mail the handler builds for [ann], and the client it builds. *)
Definition ann_mail : Mail := {|
  to_emails := Some "owner@example.org";
  from_email := Some "form@example.org";
  subject := VStr "Hello";
  html_content := "Hi there<br />From: Ann";
  reply_to := Some (VStr "ann@example.org")
|}.

Definition client : SendGridAPIClient := {| api_key := Some "SG.key" |}.

(** A submission without a subject. *)
Definition no_subject_body : value :=
  VDict {[ "name" := VStr "Ann"; "email" := VStr "ann@example.org";
           "message" := VStr "Hi there" ]}.

Definition no_subject : Request := {| json := inr no_subject_body |}.

(** A body that is not JSON. *)
Definition garbled : Request := {| json := inl not_json |}.

(** The provider accepts the first mail it is given and refuses all later
    ones, whoever sends them. *)
Definition first_come : Worlds := fun h _ =>
  match omap (fun x => sent x.2) h with
  | [] => accepting
  | _ :: _ => refusing
  end.

(** Two requests that take turns, the second one first. *)
Definition taking_turns : list nat := concat (replicate 30 [1; 0]%nat).

(** A submission that holds the email only. *)
Definition email_only : gmap string value :=
  {[ "email" := VStr "ann@example.org" ]}.

Definition bare : Request := {| json := inr (VDict email_only) |}.

(** The submission of [ann] with one more field. *)
Definition ann_with_phone : value :=
  VDict {[ "phone" := VStr "555 0100"; "name" := VStr "Ann";
           "email" := VStr "ann@example.org";
           "message" := VStr "Hi there"; "subject" := VStr "Hello" ]}.

Definition ann_again : Request := {| json := inr ann_with_phone |}.

(** A body that is JSON, but an array. *)
Definition array : Request := {| json := inr (VList []) |}.

(** A submission whose message begins with an API key. *)
Definition keyed_body : value :=
  submission "Ann" "ann@example.org" "Hello" "SG.abc123.def456".

Definition keyed : Request := {| json := inr keyed_body |}.

(** * Properties *)

(** ** Strings *)

Lemma append_assoc (s t u : string) : (s +:+ t) +:+ u = s +:+ (t +:+ u).
Proof.
  induction s as [|a s IH]; [done |].
  change (String a ((s +:+ t) +:+ u) = String a (s +:+ (t +:+ u))).
  by rewrite IH.
Qed.

Lemma length_append (s t : string) :
  String.length (s +:+ t) = (String.length s + String.length t)%nat.
Proof.
  induction s as [|a s IH]; [done |].
  change (S (String.length (s +:+ t)) = S (String.length s + String.length t)).
  by rewrite IH.
Qed.

Lemma prefix_append (s t : string) : String.prefix s (s +:+ t) = true.
Proof.
  induction s as [|a s IH]; [by destruct t |].
  change (String.prefix (String a s) (String a (s +:+ t)) = true).
  cbn. by destruct (Ascii.ascii_dec a a).
Qed.

(** No exception is its own wrapping in the handler's [HTTPException]: the
    text of the wrapping is longer. *)
Lemma wrapping_differs (e : exn) :
  e ≠ HTTPException 500 ("SendGrid Error: " +:+ str e).
Proof.
  intros He. apply (f_equal (fun x => String.length (str x))) in He.
  cbn [str] in He. rewrite !length_append in He. cbn [String.length] in He. lia.
Qed.

(** ** Following the handler *)

(** One step along a path of the handler: a step whose result is known by
    a hypothesis is rewritten, any other is split in its two ways to
    end. *)
Ltac known_step :=
  cbn;
  match goal with
  | H : ?r = _ |- context [lift ?r] => rewrite H
  | H : ?o = _ |- context [lift (unless ?o _)] => rewrite H
  end.

Ltac path_step :=
  first
    [ known_step
    | cbn;
      match goal with
      | |- context [lift (unless ?o _)] => destruct o eqn:?
      | |- context [lift ?r] => destruct r eqn:?
      end ].

(** All paths of one request on its own. *)
Ltac paths :=
  unfold trace, outcome, email, with_span, try_except;
  repeat path_step; cbn.

(** All paths of a request that is followed along the worlds [wl]. *)
Ltac follow_step wl :=
  first
    [ path_step
    | cbn;
      match goal with
      | |- context [follow wl _] => destruct wl as [|? wl]
      end ].

(** Membership in a list that is written out. *)
Ltac elems :=
  repeat match goal with
  | H : _ ∈ [] |- _ => by apply elem_of_nil in H
  | H : _ ∈ _ :: _ |- _ => apply elem_of_cons in H as [H | H]
  end.

(** ** One request *)

Section Properties.

Variable repr : value -> string.

Local Abbreviation trace := (trace repr).
Local Abbreviation outcome := (outcome repr).

Implicit Types (w : World) (request : Request) (obj : value) (e : exn).
Implicit Types (ev : event) (sg : SendGridAPIClient) (m : Mail).

Local Arguments getitem : simpl never.
Local Arguments String.append : simpl never.
Local Arguments pretty : simpl never.

(** C1.  For a request whose JSON body holds the four fields name, email,
    subject and message, and whose dispatch is answered by the provider
    with a response, the handler's answer is HTTP 200 with the body
    [{"status": "success", "code": c}], where [c] is the status code of the
    provider's response. *)
Theorem email_success_response w request obj name eml subj msg sg m response :
  json request = inr obj ->
  getitem obj "name" = inr name ->
  getitem obj "email" = inr eml ->
  getitem obj "subject" = inr subj ->
  getitem obj "message" = inr msg ->
  (sg, m, inr response) ∈ sends (trace w request) ->
  respond (outcome w request) =
    JSONResponse 200
      (VDict {[ "status" := VStr "success";
                "code" := VInt (status_code response) ]}).
Proof.
  intros Hjson Hname Hemail Hsubject Hmessage.
  paths; intros Hsend; elems; congruence.
Qed.

(** C2.  When a step inside the span raises an exception [e], be it the
    provider's [send], a step of building the mail or a lookup of a field,
    the handler catches it and raises an [HTTPException] with status 500,
    so that the answer is HTTP 500 with a detail that holds the text of
    [e], and with no success status in its body. *)
Theorem email_failure_response w request ev e :
  ev ∈ in_span (trace w request) ->
  raised ev = Some e ->
  ∃ detail pre,
    outcome w request = inl (HTTPException 500 detail) ∧
    respond (outcome w request) =
      JSONResponse 500 (VDict {[ "detail" := VStr detail ]}) ∧
    detail = pre +:+ str e ∧
    getitem (VDict {[ "detail" := VStr detail ]}) "status" = inl (KeyError "status").
Proof.
  paths; intros Hin Hraised; elems; subst; cbn in Hraised;
    simplify_eq; by eexists _, "SendGrid Error: ".
Qed.

(** C3.  For a submission with the fields name, email, subject and
    message, the mail is built once, addressed to the configured recipient,
    from the configured sender, with the subject of the submission as it
    is, and with an HTML body made of the message, the line break
    [<br />] and [From: ] followed by the name; so the body ends with
    [From: ] and the name.  A mail that is dispatched has these same
    parts. *)
Theorem email_mail_construction w request obj name eml subj msg :
  json request = inr obj ->
  getitem obj "name" = inr name ->
  getitem obj "email" = inr eml ->
  getitem obj "subject" = inr subj ->
  getitem obj "message" = inr msg ->
  ∃ html,
    omap constructed (trace w request) =
      [(environ w "SENDGRID_TO_EMAIL", environ w "SENDGRID_FROM_EMAIL",
        subj, html)] ∧
    html = format_value repr msg +:+ "<br />" +:+ ("From: " +:+ format_value repr name) ∧
    (∃ pre, html = pre +:+ ("From: " +:+ format_value repr name)) ∧
    ∀ sg m r, (sg, m, r) ∈ sends (trace w request) ->
      to_emails m = environ w "SENDGRID_TO_EMAIL" ∧
      from_email m = environ w "SENDGRID_FROM_EMAIL" ∧
      subject m = subj ∧
      html_content m = html.
Proof.
  intros Hjson Hname Hemail Hsubject Hmessage.
  exists (format_value repr msg +:+ "<br />" +:+ ("From: " +:+ format_value repr name)).
  split; [| split; [done | split]].
  - paths; done.
  - exists (format_value repr msg +:+ "<br />"). by rewrite append_assoc.
  - paths; intros ? ? ? Hsend; elems; by simplify_eq.
Qed.

(** C4.  The reply-to address of a mail that is dispatched is the email
    field of the submission, whatever the configured sender is: the sender
    only shows in the from-address. *)
Theorem email_reply_to_submitter w request obj eml sg m r :
  json request = inr obj ->
  getitem obj "email" = inr eml ->
  (sg, m, r) ∈ sends (trace w request) ->
  reply_to m = Some eml ∧
  from_email m = environ w "SENDGRID_FROM_EMAIL" ∧
  omap reply_to_assigned (trace w request) = [eml].
Proof.
  intros Hjson Hemail.
  paths; intros Hsend; elems; by simplify_eq.
Qed.

(** C5.  When the body parses and a lookup of one of the four fields
    fails, the handler answers with the failure response, HTTP 500, that
    reports the lookup error of a field, and the provider's [send] is not
    called: in no run of the handler is a field looked up after the
    dispatch. *)
Theorem email_missing_field w request obj key e :
  json request = inr obj ->
  key ∈ fields ->
  getitem obj key = inl e ->
  sends (trace w request) = [] ∧
  ∃ key' e',
    key' ∈ fields ∧
    getitem obj key' = inl e' ∧
    respond (outcome w request) =
      JSONResponse 500 (VDict {[ "detail" := VStr ("SendGrid Error: " +:+ str e') ]}) ∧
    ∀ w' request', omap looked_up (after_send (trace w' request')) = [].
Proof.
  intros Hjson Hkey Hmissing.
  assert (Horder : ∀ w' request', omap looked_up (after_send (trace w' request')) = [])
    by (intros; paths; done).
  assert (∀ key', key' ∈ fields -> ∀ e' detail,
            getitem obj key' = inl e' ->
            detail = "SendGrid Error: " +:+ str e' ->
            ∃ key' e',
              key' ∈ fields ∧ getitem obj key' = inl e' ∧
              JSONResponse 500 (VDict {[ "detail" := VStr detail ]}) =
              JSONResponse 500
                (VDict {[ "detail" := VStr ("SendGrid Error: " +:+ str e') ]}) ∧
              ∀ w' request', omap looked_up (after_send (trace w' request')) = [])
    as Hreport by (intros ? ? ? ? ? ->; eauto 6).
  unfold fields in Hkey.
  elems; subst; paths; (split; [done |]).
  all: first [ by eapply (Hreport "subject"); [set_solver | eassumption |]
             | by eapply (Hreport "email"); [set_solver | eassumption |]
             | by eapply (Hreport "message"); [set_solver | eassumption |]
             | by eapply (Hreport "name"); [set_solver | eassumption |] ].
Qed.

(** C6, as the handler has it.  For every request that is handled inside
    the span, what the span is told is the attributes of the fields
    followed by the record of the outcome.  The attributes are the subject
    and the sender's email, each told as soon as it is looked up, and both
    told before any dispatch.  After a dispatch that the provider answers,
    the span is told the status attribute [success] and the status OK, and
    the provider's response code goes to the log, not to the span.  After
    a dispatch that raises, as after any other exception raised inside the
    span, the span is told the status attribute [error], the text of the
    exception, and the status ERROR with that text; leaving the span then
    sets the status ERROR once more, with the class and the text of the
    handler's [HTTPException]. *)
Theorem email_span_record w request obj :
  json request = inr obj ->
  ∃ attributes record,
    omap span_told (trace w request) = attributes ++ record ∧
    attributes =
      match getitem obj "subject", getitem obj "email" with
      | inr subj, inr eml =>
          [Attribute (tracer_span w "send_email") "email.subject" subj;
           Attribute (tracer_span w "send_email") "email.from" eml]
      | inr subj, inl _ =>
          [Attribute (tracer_span w "send_email") "email.subject" subj]
      | inl _, _ => []
      end ∧
    record =
      match omap raised (in_span (trace w request)) with
      | [] =>
          [Attribute (tracer_span w "send_email") "email.status" (VStr "success");
           SetStatus (tracer_span w "send_email") {| code := OK; description := None |}]
      | e :: _ =>
          [Attribute (tracer_span w "send_email") "email.status" (VStr "error");
           Attribute (tracer_span w "send_email") "email.error" (VStr (str e));
           SetStatus (tracer_span w "send_email")
             {| code := ERROR; description := Some (str e) |};
           SetStatus (tracer_span w "send_email")
             (exit_status (HTTPException 500 ("SendGrid Error: " +:+ str e)))]
      end ∧
    ∀ sg m r, (sg, m, r) ∈ sends (trace w request) ->
      (∃ subj eml,
         getitem obj "subject" = inr subj ∧ getitem obj "email" = inr eml) ∧
      omap span_told (before_send (trace w request)) = attributes ∧
      omap span_told (after_send (trace w request)) = record ∧
      match r with
      | inr response =>
          omap raised (in_span (trace w request)) = [] ∧
          omap logged_info (after_send (trace w request)) =
            ["SendGrid response: " +:+ pretty (status_code response)]
      | inl e => omap raised (in_span (trace w request)) = [e]
      end.
Proof.
  intros Hjson.
  paths; (do 2 eexists; split; [| split; [reflexivity | split; [reflexivity |]]]);
    try reflexivity; intros ? ? ? Hsend; elems; simplify_eq;
    (split; [by eexists _, _ | repeat split; reflexivity]).
Qed.

(** C7.  The provider's [send] is called at most once for a request,
    however the calls of the request end. *)
Theorem email_send_at_most_once w request :
  (length (sends (trace w request)) <= 1)%nat.
Proof. paths; lia. Qed.

(** C8.  Whatever exception the handler catches inside the span, the
    lookup error of a missing field as much as a failure of the provider,
    the detail of the HTTP 500 begins with [SendGrid Error: ], followed by
    the text of the exception. *)
Theorem email_detail_prefix w request ev e :
  ev ∈ in_span (trace w request) ->
  raised ev = Some e ->
  ∃ detail,
    respond (outcome w request) =
      JSONResponse 500 (VDict {[ "detail" := VStr detail ]}) ∧
    String.prefix "SendGrid Error: " detail = true ∧
    detail = "SendGrid Error: " +:+ str e.
Proof.
  paths; intros Hin Hraised; elems; subst; cbn in Hraised; simplify_eq.
  all: eexists; split; [done | split; [apply prefix_append | done]].
Qed.

(** C9.  When the body is not JSON, the exception of [request.json()]
    leaves the handler as it is: the only call made is [request.json()],
    so no span is opened and no span is told anything, and what the handler
    raises is not its HTTP 500 with the [SendGrid Error: ] detail. *)
Theorem email_unparsable_body w request e :
  json request = inl e ->
  trace w request = [Event (request_json request) (inl e)] ∧
  outcome w request = inl e ∧
  filter (fun ev => is_start_span ev = true) (trace w request) = [] ∧
  omap span_told (trace w request) = [] ∧
  outcome w request ≠ inl (HTTPException 500 ("SendGrid Error: " +:+ str e)).
Proof.
  intros Hjson. paths. repeat split; try done.
  intros [= He]. by apply wrapping_differs in He.
Qed.

End Properties.

(** ** Many requests *)

Lemma follow_snoc {A : Type} (wl : list World) (w : World) (p : prog A) :
  follow (wl ++ [w]) p =
    match (follow wl p).2 with
    | Call c k => ((follow wl p).1 ++ [Event c (answer w c)], k (answer w c))
    | _ => follow wl p
    end.
Proof.
  revert p. induction wl as [|w' wl IH]; intros p.
  - destruct p; cbn; try done. by destruct (k _).
  - destruct p as [a|e|X c k]; cbn; try done.
    rewrite IH. destruct (follow wl _) as [tr p']. cbn. by destruct p'.
Qed.

Lemma local_snoc (i j : nat) (h : list (nat * event)) (ev : event) :
  local i (h ++ [(j, ev)]) = local i h ++ (if decide (j = i) then [ev] else []).
Proof. unfold local. rewrite omap_app. cbn. by case_decide. Qed.

(** Whatever the schedule, a request has made the calls of its own
    handler, each answered by some world, and is left with the rest of
    that handler. *)
Lemma exec_follow (ws : Worlds) (schedule : list nat) (ps : list (prog value))
    (i : nat) (p : prog value) :
  ps !! i = Some p ->
  ∃ wl,
    threads (exec ws schedule {| threads := ps; history := [] |}) !! i
      = Some (follow wl p).2 ∧
    local i (history (exec ws schedule {| threads := ps; history := [] |}))
      = (follow wl p).1.
Proof.
  intros Hp. induction schedule as [|j schedule IH] using rev_ind.
  - exists []. by destruct p.
  - destruct IH as (wl & Hthread & Hlocal).
    unfold exec in *. rewrite foldl_snoc.
    set (st := foldl _ _ schedule) in *. unfold step.
    destruct (threads st !! j) as [[a|e|X c k]|] eqn:Hj; try by exists wl.
    cbn [threads history]. destruct (decide (j = i)) as [->|Hne].
    + exists (wl ++ [ws (history st) i]).
      rewrite follow_snoc, local_snoc, decide_True by done.
      rewrite Hthread in Hj. injection Hj as ->. cbn [fst snd].
      split; [| by rewrite Hlocal].
      apply list_lookup_insert_eq. by eapply lookup_lt_Some.
    + exists wl. rewrite local_snoc, decide_False, app_nil_r by done.
      by rewrite list_lookup_insert_ne.
Qed.

Section Concurrent.

Variable repr : value -> string.

Implicit Types (request : Request) (wl : list World).

Local Arguments getitem : simpl never.
Local Arguments String.append : simpl never.
Local Arguments pretty : simpl never.

(** What a handler has dispatched so far was built from its own request,
    and once it has ended, how it ended follows from its own calls. *)
Lemma email_follow wl request :
  (∀ sg m r, (sg, m, r) ∈ sends (follow wl (email repr request)).1 ->
     ∃ obj subj msg name,
       json request = inr obj ∧
       getitem obj "subject" = inr subj ∧
       getitem obj "message" = inr msg ∧
       getitem obj "name" = inr name ∧
       subject m = subj ∧
       html_content m =
         format_value repr msg +:+ "<br />From: " +:+ format_value repr name) ∧
  (∀ o, finished (follow wl (email repr request)).2 = Some o ->
     match o with
     | inr content =>
         ∃ sg m response,
           sends (follow wl (email repr request)).1 = [(sg, m, inr response)] ∧
           content = VDict {[ "status" := VStr "success";
                              "code" := VInt (status_code response) ]}
     | inl e =>
         json request = inl e ∨
         ∃ e', omap raised (in_span (follow wl (email repr request)).1) = [e'] ∧
               e = HTTPException 500 ("SendGrid Error: " +:+ str e')
     end).
Proof.
  unfold email, with_span, try_except.
  repeat follow_step wl; cbn.
  all: split; [intros ? ? ? Hsend; elems; simplify_eq; by eexists _, _, _, _ |].
  all: intros o Ho; simplify_eq; eauto.
Qed.

(** A handler that has ended made the calls, and ended the way, of a run
    on its own in the world it has seen. *)
Lemma email_alone wl (default : World) request (o : exn + value) :
  finished (follow wl (email repr request)).2 = Some o ->
  (follow wl (email repr request)).1 = trace repr (seen wl default) request ∧
  o = outcome repr (seen wl default) request.
Proof.
  set (lone := seen) at 1 2. unfold email at 1 2. unfold with_span, try_except.
  repeat follow_step wl; cbn.
  all: intros [= <-].
  all: subst lone; unfold trace, outcome, email, with_span, try_except.
  all: repeat known_step; done.
Qed.

(** C10.  Among requests that are handled at once, under any schedule and
    whatever the worlds answer, a request that has ended made the calls,
    and got the answer, of a run on its own.  The subject and the body of
    the mail it dispatched are those of its own submission; its success
    carries the code the provider gave to its own dispatch, and its
    failure the text of the exception that one of its own calls raised. *)
Theorem email_concurrent_requests (ws : Worlds) (schedule : list nat)
    (requests : list Request) (i : nat) request (p : prog value)
    (o : exn + value) :
  requests !! i = Some request ->
  threads (exec ws schedule (serve repr requests)) !! i = Some p ->
  finished p = Some o ->
  (∃ w, local i (history (exec ws schedule (serve repr requests)))
          = trace repr w request ∧
        o = outcome repr w request) ∧
  (∀ sg m r,
     (sg, m, r) ∈ sends (local i (history (exec ws schedule (serve repr requests)))) ->
     ∃ obj subj msg name,
       json request = inr obj ∧
       getitem obj "subject" = inr subj ∧
       getitem obj "message" = inr msg ∧
       getitem obj "name" = inr name ∧
       subject m = subj ∧
       html_content m =
         format_value repr msg +:+ "<br />From: " +:+ format_value repr name) ∧
  match o with
  | inr content =>
      ∃ sg m response,
        sends (local i (history (exec ws schedule (serve repr requests))))
          = [(sg, m, inr response)] ∧
        content = VDict {[ "status" := VStr "success";
                           "code" := VInt (status_code response) ]}
  | inl e =>
      json request = inl e ∨
      ∃ e',
        omap raised
          (in_span (local i (history (exec ws schedule (serve repr requests)))))
          = [e'] ∧
        e = HTTPException 500 ("SendGrid Error: " +:+ str e')
  end.
Proof.
  intros Hrequest Hthread Hfinished.
  destruct (exec_follow ws schedule (email repr <$> requests) i (email repr request))
    as (wl & Hp & Hown).
  { by rewrite list_lookup_fmap, Hrequest. }
  unfold serve in *. rewrite Hp in Hthread. injection Hthread as <-.
  rewrite Hown. split; [| split].
  - exists (seen wl (ws [] i)). by apply email_alone.
  - apply email_follow.
  - by apply email_follow.
Qed.

End Concurrent.

(** ** The properties on the sample inputs *)

(** Finds an element in a list that is written out. *)
Ltac find_elem :=
  vm_compute; repeat first [apply list_elem_of_here | apply list_elem_of_further].

Lemma email_success_response_witness :
  json ann = inr ann_body ∧
  getitem ann_body "name" = inr (VStr "Ann") ∧
  getitem ann_body "email" = inr (VStr "ann@example.org") ∧
  getitem ann_body "subject" = inr (VStr "Hello") ∧
  getitem ann_body "message" = inr (VStr "Hi there") ∧
  (client, ann_mail, inr accepted) ∈ sends (trace sample_repr accepting ann) ∧
  respond (outcome sample_repr accepting ann) =
    JSONResponse 200 (VDict {[ "status" := VStr "success"; "code" := VInt 202 ]}).
Proof.
  assert (Hsend : (client, ann_mail, inr accepted)
                    ∈ sends (trace sample_repr accepting ann)) by find_elem.
  do 5 (split; [reflexivity |]). split; [exact Hsend |].
  exact (email_success_response sample_repr accepting ann ann_body
           (VStr "Ann") (VStr "ann@example.org") (VStr "Hello") (VStr "Hi there")
           client ann_mail accepted eq_refl eq_refl eq_refl eq_refl eq_refl Hsend).
Defined.

Lemma email_failure_response_witness :
  Event (send client ann_mail) (inl unauthorized)
    ∈ in_span (trace sample_repr refusing ann) ∧
  raised (Event (send client ann_mail) (inl unauthorized)) = Some unauthorized ∧
  ∃ detail pre,
    outcome sample_repr refusing ann = inl (HTTPException 500 detail) ∧
    respond (outcome sample_repr refusing ann) =
      JSONResponse 500 (VDict {[ "detail" := VStr detail ]}) ∧
    detail = pre +:+ str unauthorized ∧
    getitem (VDict {[ "detail" := VStr detail ]}) "status" = inl (KeyError "status").
Proof.
  assert (Hin : Event (send client ann_mail) (inl unauthorized)
                  ∈ in_span (trace sample_repr refusing ann)) by find_elem.
  split; [exact Hin |]. split; [reflexivity |].
  exact (email_failure_response sample_repr refusing ann _ unauthorized Hin eq_refl).
Defined.

Lemma email_mail_construction_witness :
  json ann = inr ann_body ∧
  getitem ann_body "name" = inr (VStr "Ann") ∧
  getitem ann_body "email" = inr (VStr "ann@example.org") ∧
  getitem ann_body "subject" = inr (VStr "Hello") ∧
  getitem ann_body "message" = inr (VStr "Hi there") ∧
  ∃ html,
    omap constructed (trace sample_repr accepting ann) =
      [(Some "owner@example.org", Some "form@example.org", VStr "Hello", html)] ∧
    html = "Hi there" +:+ "<br />" +:+ ("From: " +:+ "Ann") ∧
    (∃ pre, html = pre +:+ ("From: " +:+ "Ann")) ∧
    ∀ sg m r, (sg, m, r) ∈ sends (trace sample_repr accepting ann) ->
      to_emails m = Some "owner@example.org" ∧
      from_email m = Some "form@example.org" ∧
      subject m = VStr "Hello" ∧
      html_content m = html.
Proof.
  do 5 (split; [reflexivity |]).
  exact (email_mail_construction sample_repr accepting ann ann_body
           (VStr "Ann") (VStr "ann@example.org") (VStr "Hello") (VStr "Hi there")
           eq_refl eq_refl eq_refl eq_refl eq_refl).
Defined.

Lemma email_reply_to_submitter_witness :
  json ann = inr ann_body ∧
  getitem ann_body "email" = inr (VStr "ann@example.org") ∧
  (client, ann_mail, inr accepted) ∈ sends (trace sample_repr accepting ann) ∧
  reply_to ann_mail = Some (VStr "ann@example.org") ∧
  from_email ann_mail = Some "form@example.org" ∧
  omap reply_to_assigned (trace sample_repr accepting ann) = [VStr "ann@example.org"].
Proof.
  assert (Hsend : (client, ann_mail, inr accepted)
                    ∈ sends (trace sample_repr accepting ann)) by find_elem.
  do 2 (split; [reflexivity |]). split; [exact Hsend |].
  exact (email_reply_to_submitter sample_repr accepting ann ann_body
           (VStr "ann@example.org") client ann_mail (inr accepted)
           eq_refl eq_refl Hsend).
Defined.

Lemma email_missing_field_witness :
  json no_subject = inr no_subject_body ∧
  "subject" ∈ fields ∧
  getitem no_subject_body "subject" = inl (KeyError "subject") ∧
  sends (trace sample_repr accepting no_subject) = [] ∧
  ∃ key' e',
    key' ∈ fields ∧
    getitem no_subject_body key' = inl e' ∧
    respond (outcome sample_repr accepting no_subject) =
      JSONResponse 500 (VDict {[ "detail" := VStr ("SendGrid Error: " +:+ str e') ]}) ∧
    ∀ w' request',
      omap looked_up (after_send (trace sample_repr w' request')) = [].
Proof.
  assert (Hkey : "subject" ∈ fields) by find_elem.
  split; [reflexivity |]. split; [exact Hkey |]. split; [reflexivity |].
  exact (email_missing_field sample_repr accepting no_subject no_subject_body
           "subject" (KeyError "subject") eq_refl Hkey eq_refl).
Defined.

Lemma email_span_record_witness :
  json ann = inr ann_body ∧
  ∃ attributes record,
    omap span_told (trace sample_repr refusing ann) = attributes ++ record ∧
    attributes =
      match getitem ann_body "subject", getitem ann_body "email" with
      | inr subj, inr eml =>
          [Attribute 1%nat "email.subject" subj; Attribute 1%nat "email.from" eml]
      | inr subj, inl _ => [Attribute 1%nat "email.subject" subj]
      | inl _, _ => []
      end ∧
    record =
      match omap raised (in_span (trace sample_repr refusing ann)) with
      | [] =>
          [Attribute 1%nat "email.status" (VStr "success");
           SetStatus 1%nat {| code := OK; description := None |}]
      | e :: _ =>
          [Attribute 1%nat "email.status" (VStr "error");
           Attribute 1%nat "email.error" (VStr (str e));
           SetStatus 1%nat {| code := ERROR; description := Some (str e) |};
           SetStatus 1%nat
             (exit_status (HTTPException 500 ("SendGrid Error: " +:+ str e)))]
      end ∧
    ∀ sg m r, (sg, m, r) ∈ sends (trace sample_repr refusing ann) ->
      (∃ subj eml,
         getitem ann_body "subject" = inr subj ∧ getitem ann_body "email" = inr eml) ∧
      omap span_told (before_send (trace sample_repr refusing ann)) = attributes ∧
      omap span_told (after_send (trace sample_repr refusing ann)) = record ∧
      match r with
      | inr response =>
          omap raised (in_span (trace sample_repr refusing ann)) = [] ∧
          omap logged_info (after_send (trace sample_repr refusing ann)) =
            ["SendGrid response: " +:+ pretty (status_code response)]
      | inl e => omap raised (in_span (trace sample_repr refusing ann)) = [e]
      end.
Proof.
  split; [reflexivity |].
  exact (email_span_record sample_repr refusing ann ann_body eq_refl).
Defined.

(** C6, as the claim has it, fails: for [ann], whose mail the provider
    accepts with the code 202, no attribute that the span is told holds
    that code, as a number or as text. *)
Lemma response_code_not_on_span :
  ¬ (∀ sg m response,
       (sg, m, inr response) ∈ sends (trace sample_repr accepting ann) ->
       ∃ span key v,
         Attribute span key v ∈ omap span_told (trace sample_repr accepting ann) ∧
         (v = VInt (status_code response) ∨
          v = VStr (pretty (status_code response)))).
Proof.
  intros Hclaim.
  destruct (Hclaim client ann_mail accepted) as (span & key & v & Hin & Hv);
    [find_elem |].
  assert (Htold : omap span_told (trace sample_repr accepting ann) =
            [Attribute 1%nat "email.subject" (VStr "Hello");
             Attribute 1%nat "email.from" (VStr "ann@example.org");
             Attribute 1%nat "email.status" (VStr "success");
             SetStatus 1%nat {| code := OK; description := None |}])
    by reflexivity.
  rewrite Htold in Hin.
  repeat (apply elem_of_cons in Hin as [Hin | Hin]);
    [.. | by apply elem_of_nil in Hin];
    simplify_eq; destruct Hv as [Hv | Hv]; vm_compute in Hv; discriminate.
Qed.

Lemma email_detail_prefix_witness :
  Event (subscript no_subject_body "subject") (inl (KeyError "subject"))
    ∈ in_span (trace sample_repr accepting no_subject) ∧
  raised (Event (subscript no_subject_body "subject") (inl (KeyError "subject")))
    = Some (KeyError "subject") ∧
  ∃ detail,
    respond (outcome sample_repr accepting no_subject) =
      JSONResponse 500 (VDict {[ "detail" := VStr detail ]}) ∧
    String.prefix "SendGrid Error: " detail = true ∧
    detail = "SendGrid Error: " +:+ "'subject'".
Proof.
  assert (Hin : Event (subscript no_subject_body "subject") (inl (KeyError "subject"))
                  ∈ in_span (trace sample_repr accepting no_subject)) by find_elem.
  split; [exact Hin |]. split; [reflexivity |].
  exact (email_detail_prefix sample_repr accepting no_subject _ (KeyError "subject")
           Hin eq_refl).
Defined.

Lemma email_unparsable_body_witness :
  json garbled = inl not_json ∧
  trace sample_repr accepting garbled = [Event (request_json garbled) (inl not_json)] ∧
  outcome sample_repr accepting garbled = inl not_json ∧
  filter (fun ev => is_start_span ev = true) (trace sample_repr accepting garbled) = [] ∧
  omap span_told (trace sample_repr accepting garbled) = [] ∧
  outcome sample_repr accepting garbled
    ≠ inl (HTTPException 500 ("SendGrid Error: " +:+ str not_json)).
Proof.
  split; [reflexivity |].
  exact (email_unparsable_body sample_repr accepting garbled not_json eq_refl).
Defined.

Lemma email_concurrent_requests_witness :
  [ann; bob] !! 0%nat = Some ann ∧
  threads (exec first_come taking_turns (serve sample_repr [ann; bob])) !! 0%nat
    = Some (Raise (HTTPException 500 ("SendGrid Error: " +:+ str unauthorized))) ∧
  finished (A := value)
      (Raise (HTTPException 500 ("SendGrid Error: " +:+ str unauthorized)))
    = Some (inl (HTTPException 500 ("SendGrid Error: " +:+ str unauthorized))) ∧
  (∃ w, local 0 (history (exec first_come taking_turns (serve sample_repr [ann; bob])))
          = trace sample_repr w ann ∧
        inl (HTTPException 500 ("SendGrid Error: " +:+ str unauthorized))
          = outcome sample_repr w ann) ∧
  (∀ sg m r,
     (sg, m, r) ∈ sends (local 0 (history (exec first_come taking_turns
                                             (serve sample_repr [ann; bob])))) ->
     ∃ obj subj msg name,
       json ann = inr obj ∧
       getitem obj "subject" = inr subj ∧
       getitem obj "message" = inr msg ∧
       getitem obj "name" = inr name ∧
       subject m = subj ∧
       html_content m =
         format_value sample_repr msg +:+ "<br />From: " +:+ format_value sample_repr name) ∧
  (json ann = inl (HTTPException 500 ("SendGrid Error: " +:+ str unauthorized)) ∨
   ∃ e',
     omap raised
       (in_span (local 0 (history (exec first_come taking_turns
                                     (serve sample_repr [ann; bob])))))
       = [e'] ∧
     HTTPException 500 ("SendGrid Error: " +:+ str unauthorized)
       = HTTPException 500 ("SendGrid Error: " +:+ str e')).
Proof.
  assert (Hthread :
    threads (exec first_come taking_turns (serve sample_repr [ann; bob])) !! 0%nat
      = Some (Raise (HTTPException 500 ("SendGrid Error: " +:+ str unauthorized))))
    by (vm_compute; reflexivity).
  split; [reflexivity |]. split; [exact Hthread |]. split; [reflexivity |].
  exact (email_concurrent_requests sample_repr first_come taking_turns [ann; bob]
           0%nat ann _ _ eq_refl Hthread eq_refl).
Defined.

(** * Further properties *)

(** ** One request *)

Lemma getitem_dict (d : gmap string value) (key : string) :
  getitem (VDict d) key =
    match d !! key with
    | Some v => inr v
    | None => inl (KeyError key)
    end.
Proof. reflexivity. Qed.

Section Further.

Variable repr : value -> string.

Local Abbreviation trace := (trace repr).
Local Abbreviation outcome := (outcome repr).

Implicit Types (w : World) (request : Request) (obj : value) (e : exn).
Implicit Types (ev : event) (sg : SendGridAPIClient) (m : Mail).

Local Arguments getitem : simpl never.
Local Arguments String.append : simpl never.
Local Arguments pretty : simpl never.

(** X1.  A mail is dispatched through a client that was built with the
    value of SENDGRID_API_KEY; by then the handler has read the recipient,
    the sender and the key from the environment, in this order, and
    nothing else. *)
Theorem dispatch_uses_configured_key w request sg m r :
  (sg, m, r) ∈ sends (trace w request) ->
  api_key sg = environ w "SENDGRID_API_KEY" ∧
  omap client_built (trace w request) = [environ w "SENDGRID_API_KEY"] ∧
  omap env_read (trace w request) =
    ["SENDGRID_TO_EMAIL"; "SENDGRID_FROM_EMAIL"; "SENDGRID_API_KEY"].
Proof. paths; intros Hsend; elems; by simplify_eq. Qed.

(** X2.  A body that parses is logged once, before the span is opened,
    also when fields are missing.  Inside the span one more line is
    logged, with the provider's code, when the handler returns, and none
    when it fails. *)
Theorem info_log w request obj :
  json request = inr obj ->
  omap logged_info (trace w request) =
    ("Received contact form data: " +:+ format_value repr obj)
      :: omap logged_info (in_span (trace w request)) ∧
  match outcome w request with
  | inr _ =>
      ∃ sg m response,
        sends (trace w request) = [(sg, m, inr response)] ∧
        omap logged_info (in_span (trace w request)) =
          ["SendGrid response: " +:+ pretty (status_code response)]
  | inl _ => omap logged_info (in_span (trace w request)) = []
  end.
Proof. intros Hjson. paths; split; eauto. Qed.


(** X4.  For a body that parses, one span is opened, named [send_email],
    and it is left once, as the last thing the handler does: with no
    exception when the handler returns, with the handler's own exception
    when it fails.  All that is told to a span is told to this one. *)
Theorem span_lifecycle w request obj :
  json request = inr obj ->
  omap span_opened (trace w request) = ["send_email"%string] ∧
  omap span_closed (trace w request) =
    [(tracer_span w "send_email",
      match outcome w request with inl e => Some e | inr _ => None end)] ∧
  last (trace w request) ≫= span_closed =
    Some (tracer_span w "send_email",
          match outcome w request with inl e => Some e | inr _ => None end) ∧
  Forall (fun op => told_span op = tracer_span w "send_email")
    (omap span_told (trace w request)).
Proof.
  intros Hjson. paths; repeat split; try done; repeat constructor.
Qed.

(** X5.  For a body that parses, the span ends in agreement with the
    answer.  It is told the status attribute once: [success] when the
    handler returns, [error] when it fails.  When the handler returns, the
    status of the span is set once, to OK.  When it fails, the status is
    set twice, to ERROR both times: by the handler, with the text of the
    exception it caught, which is also the error attribute and what the
    client's detail ends with; then on leaving the span, with the class
    and the text of the handler's [HTTPException], which is the status the
    span ends with. *)
Theorem span_status_agrees w request obj :
  json request = inr obj ->
  match outcome w request with
  | inr _ =>
      omap (told_for "email.status") (omap span_told (trace w request)) =
        [VStr "success"] ∧
      omap (told_for "email.error") (omap span_told (trace w request)) = [] ∧
      omap status_set (omap span_told (trace w request)) =
        [{| code := OK; description := None |}]
  | inl e =>
      ∃ e',
        e = HTTPException 500 ("SendGrid Error: " +:+ str e') ∧
        omap (told_for "email.status") (omap span_told (trace w request)) =
          [VStr "error"] ∧
        omap (told_for "email.error") (omap span_told (trace w request)) =
          [VStr (str e')] ∧
        omap status_set (omap span_told (trace w request)) =
          [{| code := ERROR; description := Some (str e') |};
           {| code := ERROR;
              description :=
                Some ("HTTPException: " +:+ "500: " +:+ "SendGrid Error: " +:+ str e') |}] ∧
        last (omap status_set (omap span_told (trace w request))) =
          Some (exit_status e)
  end.
Proof. intros Hjson. paths; eauto 10. Qed.

(** X6.  Of the fields that a submission lacks, the one reported is the
    first in the order in which the handler looks them up: subject, email,
    message, name.  The client is told its [KeyError]. *)
Theorem first_missing_field_reported w request (d : gmap string value) key :
  json request = inr (VDict d) ->
  List.find (missing d) lookup_order = Some key ->
  omap raised (in_span (trace w request)) = [KeyError key] ∧
  respond (outcome w request) =
    JSONResponse 500
      (VDict {[ "detail" := VStr ("SendGrid Error: " +:+ "'" +:+ key +:+ "'") ]}).
Proof.
  intros Hjson Hfind.
  pose proof (getitem_dict d "subject") as Hsubject.
  pose proof (getitem_dict d "email") as Hemail.
  pose proof (getitem_dict d "message") as Hmessage.
  pose proof (getitem_dict d "name") as Hname.
  unfold lookup_order, missing in Hfind. cbn [List.find] in Hfind.
  destruct (d !! "subject"); [| simplify_eq; paths; by split].
  destruct (d !! "email"); [| simplify_eq; paths; by split].
  destruct (d !! "message"); [| simplify_eq; paths; by split].
  destruct (d !! "name"); [done | simplify_eq; paths; by split].
Qed.

(** X7.  The handler returns only after it has handed one mail to the
    provider and the provider has answered it: then the four fields were
    there, and what is returned carries the code of that answer. *)
Theorem success_only_after_dispatch w request content :
  outcome w request = inr content ->
  ∃ obj name eml subj msg sg m response,
    json request = inr obj ∧
    getitem obj "name" = inr name ∧
    getitem obj "email" = inr eml ∧
    getitem obj "subject" = inr subj ∧
    getitem obj "message" = inr msg ∧
    sends (trace w request) = [(sg, m, inr response)] ∧
    content = VDict {[ "status" := VStr "success";
                       "code" := VInt (status_code response) ]}.
Proof.
  paths; intros Hreturn; simplify_eq.
  by eexists _, _, _, _, _, _, _, _.
Qed.

(** X8.  Once the body parses, no exception leaves the handler unanswered:
    the answer is HTTP 200 or HTTP 500, whatever the body holds and
    whatever the libraries and the provider do. *)
Theorem parsed_body_is_answered w request obj :
  json request = inr obj ->
  ∃ status content,
    respond (outcome w request) = JSONResponse status content ∧
    (status = 200 ∨ status = 500).
Proof. intros Hjson. paths; eauto. Qed.

(** X9.  When building the mail raises, the handler stops there: the key
    is not read from the environment, no client is built, the reply-to is
    not assigned and nothing is dispatched; the client is told the text of
    the exception with HTTP 500. *)
Theorem construction_failure w request ev args e :
  ev ∈ trace w request ->
  constructed ev = Some args ->
  raised ev = Some e ->
  omap env_read (trace w request) = ["SENDGRID_TO_EMAIL"; "SENDGRID_FROM_EMAIL"] ∧
  omap client_built (trace w request) = [] ∧
  omap reply_to_assigned (trace w request) = [] ∧
  sends (trace w request) = [] ∧
  respond (outcome w request) =
    JSONResponse 500 (VDict {[ "detail" := VStr ("SendGrid Error: " +:+ str e) ]}).
Proof.
  paths; intros Hin Hbuilt Hraised; elems; subst;
    cbn in Hbuilt, Hraised; by simplify_eq.
Qed.

(** X10.  A body that parses but is not an object fails at the first
    lookup, that of the subject, with a [TypeError]: nothing else is
    looked up, the environment is not read, no mail is built and nothing
    is dispatched. *)
Theorem body_not_an_object w request obj :
  json request = inr obj ->
  (∀ d, obj ≠ VDict d) ->
  ∃ msg,
    getitem obj "subject" = inl (TypeError msg) ∧
    omap looked_up (trace w request) = [(obj, "subject"%string)] ∧
    omap env_read (trace w request) = [] ∧
    omap constructed (trace w request) = [] ∧
    sends (trace w request) = [] ∧
    respond (outcome w request) =
      JSONResponse 500 (VDict {[ "detail" := VStr ("SendGrid Error: " +:+ msg) ]}).
Proof.
  intros Hjson Hobj.
  assert (∃ msg, getitem obj "subject" = inl (TypeError msg)) as [msg Hmsg].
  { destruct obj; try by eexists. by destruct (Hobj d). }
  exists msg. split; [done |]. by paths.
Qed.

(** X11.  What a submission holds beside the four fields is ignored: two
    bodies with the same four fields are answered alike, with the same
    mail handed to the provider and the same things told to the span. *)
Theorem other_fields_ignored w request request' obj obj' :
  json request = inr obj ->
  json request' = inr obj' ->
  (∀ key, key ∈ fields -> getitem obj' key = getitem obj key) ->
  outcome w request' = outcome w request ∧
  sends (trace w request') = sends (trace w request) ∧
  omap span_told (trace w request') = omap span_told (trace w request) ∧
  omap logged_error (trace w request') = omap logged_error (trace w request).
Proof.
  intros Hjson Hjson' Hsame.
  assert (Hname : getitem obj' "name" = getitem obj "name")
    by (apply Hsame; unfold fields; set_solver).
  assert (Hemail : getitem obj' "email" = getitem obj "email")
    by (apply Hsame; unfold fields; set_solver).
  assert (Hsubject : getitem obj' "subject" = getitem obj "subject")
    by (apply Hsame; unfold fields; set_solver).
  assert (Hmessage : getitem obj' "message" = getitem obj "message")
    by (apply Hsame; unfold fields; set_solver).
  clear Hsame. paths; done.
Qed.

End Further.

(** ** Many requests *)

(** As [exec_follow], with the worlds that answered: one for each turn the
    request was given, each the world of the request at some moment. *)
Lemma exec_follow_turns (ws : Worlds) (schedule : list nat) (ps : list (prog value))
    (i : nat) (p : prog value) :
  ps !! i = Some p ->
  ∃ wl,
    threads (exec ws schedule {| threads := ps; history := [] |}) !! i
      = Some (follow wl p).2 ∧
    local i (history (exec ws schedule {| threads := ps; history := [] |}))
      = (follow wl p).1 ∧
    length wl = length (filter (fun j => j = i) schedule) ∧
    Forall (fun w => ∃ h, w = ws h i) wl.
Proof.
  intros Hp. induction schedule as [|j schedule IH] using rev_ind.
  - exists []. by destruct p.
  - destruct IH as (wl & Hthread & Hlocal & Hlen & Hws).
    unfold exec in *. rewrite foldl_snoc, filter_app, length_app.
    set (st := foldl _ _ schedule) in *. unfold step.
    destruct (decide (j = i)) as [->|Hne].
    + exists (wl ++ [ws (history st) i]).
      rewrite Hthread, follow_snoc.
      rewrite filter_cons_True, length_app, Hlen by done.
      rewrite Forall_app, Forall_singleton.
      destruct (follow wl p) as [tr q]. cbn [fst snd] in *.
      destruct q as [a|e|X c k]; cbn [threads history fst snd].
      * eauto 10.
      * eauto 10.
      * rewrite local_snoc, decide_True, Hlocal by done.
        split; [| by eauto 10].
        apply list_lookup_insert_eq. by eapply lookup_lt_Some.
    + exists wl. rewrite filter_cons_False by done. cbn [length].
      rewrite Nat.add_0_r.
      destruct (threads st !! j) as [[a|e|X c k]|] eqn:Hj; try done.
      cbn [threads history].
      rewrite local_snoc, decide_False, app_nil_r by done.
      by rewrite list_lookup_insert_ne.
Qed.

(** The events of all requests are those of each request, counted
    together. *)
Lemma sum_list_plus {A : Type} (f g : A -> nat) (l : list A) :
  sum_list ((fun i => f i + g i)%nat <$> l)
    = (sum_list (f <$> l) + sum_list (g <$> l))%nat.
Proof. induction l as [|i l IH]; cbn; [done | rewrite IH; lia]. Qed.

Lemma sum_list_one (j c : nat) (l : list nat) :
  NoDup l -> j ∈ l ->
  sum_list ((fun i => if decide (j = i) then c else 0%nat) <$> l) = c.
Proof.
  intros Hl. induction Hl as [|i l Hi Hl IH]; intros Hj; [by apply elem_of_nil in Hj |].
  cbn. apply elem_of_cons in Hj as [<- | Hj].
  - rewrite decide_True by done.
    assert (sum_list ((fun i => if decide (j = i) then c else 0%nat) <$> l) = 0%nat) as ->; [| lia].
    clear IH Hl. induction l as [|i l IH]; [done |]; cbn.
    rewrite decide_False by set_solver. rewrite IH; [done | set_solver].
  - rewrite decide_False by set_solver. by rewrite IH.
Qed.

Lemma sum_list_bound {A : Type} (f : A -> nat) (l : list A) :
  (∀ i, i ∈ l -> (f i <= 1)%nat) ->
  (sum_list (f <$> l) <= length l)%nat.
Proof.
  induction l as [|i l IH]; intros Hf; cbn; [done |].
  specialize (Hf i (list_elem_of_here _ _)) as Hi.
  assert (sum_list (f <$> l) <= length l)%nat; [| lia].
  apply IH. intros ? ?. apply Hf. by apply list_elem_of_further.
Qed.

Lemma sends_by_request (n : nat) (h : list (nat * event)) :
  Forall (fun x => (x.1 < n)%nat) h ->
  length (sends h.*2)
    = sum_list ((fun i => length (sends (local i h))) <$> seq 0 n).
Proof.
  induction 1 as [|[j ev] h Hj Hh IH]; cbn [fmap list_fmap].
  - cbn. induction (seq 0 n) as [|? ? IHs]; [done | by cbn; rewrite <- IHs].
  - transitivity
      (sum_list ((fun i => (if decide (j = i) then length (sends [ev]) else 0)
                            + length (sends (local i h)))%nat <$> seq 0 n)).
    + rewrite sum_list_plus, <- IH, sum_list_one;
        [| apply NoDup_seq | apply elem_of_seq; cbn in Hj; lia].
      unfold sends. cbn. by destruct (sent ev).
    + f_equal. apply list_fmap_ext. intros _ i _. unfold local, sends. cbn.
      case_decide; cbn; [by destruct (sent ev) | done].
Qed.

(** Every event of a run is marked with a request that is there. *)
Lemma exec_marks (ws : Worlds) (schedule : list nat) (st : server) :
  Forall (fun x => (x.1 < length (threads st))%nat) (history st) ->
  Forall (fun x => (x.1 < length (threads st))%nat) (history (exec ws schedule st)).
Proof.
  revert st. induction schedule as [|j schedule IH]; intros st Hst; [done |].
  cbn. unfold exec in IH.
  assert (length (threads (step ws j st)) = length (threads st) ∧
          Forall (fun x => (x.1 < length (threads st))%nat) (history (step ws j st)))
    as [Hlen Hstep].
  { unfold step. destruct (threads st !! j) as [[a|e|X c k]|] eqn:Hj; try done.
    cbn. rewrite length_insert. split; [done |].
    apply Forall_app. split; [done |]. apply Forall_singleton. cbn.
    by eapply lookup_lt_Some. }
  rewrite <- Hlen. apply IH. by rewrite Hlen.
Qed.

Section FurtherConcurrent.

Variable repr : value -> string.

Implicit Types (request : Request) (wl : list World).

Local Arguments getitem : simpl never.
Local Arguments String.append : simpl never.
Local Arguments pretty : simpl never.

(** However far a handler has come, it has dispatched at most once. *)
Lemma email_follow_sends wl request :
  (length (sends (follow wl (email repr request)).1) <= 1)%nat.
Proof.
  unfold email, with_span, try_except.
  repeat follow_step wl; cbn; lia.
Qed.

(** A handler has ended by its 23rd call. *)
Lemma email_follow_ends wl request :
  (23 <= length wl)%nat ->
  is_Some (finished (follow wl (email repr request)).2).
Proof.
  unfold email, with_span, try_except.
  repeat follow_step wl; cbn; intros Hlen; try lia; eauto.
Qed.

(** X12.  Requests that are handled at once hand to the provider at most
    one mail each: under any schedule, and whatever the worlds answer,
    there are never more dispatches than requests. *)
Theorem dispatches_bounded_by_requests (ws : Worlds) (schedule : list nat)
    (requests : list Request) :
  (length (sends (history (exec ws schedule (serve repr requests))).*2)
     <= length requests)%nat.
Proof.
  rewrite (sends_by_request (length requests)).
  - etrans; [apply sum_list_bound | by rewrite length_seq].
    intros i Hi. apply elem_of_seq in Hi.
    destruct (lookup_lt_is_Some_2 requests i) as [request Hrequest]; [lia |].
    destruct (exec_follow ws schedule (email repr <$> requests) i (email repr request))
      as (wl & _ & Hown).
    { by rewrite list_lookup_fmap, Hrequest. }
    unfold serve. rewrite Hown. apply email_follow_sends.
  - pose proof (exec_marks ws schedule (serve repr requests)) as Hmarks.
    unfold serve in *. cbn [threads history] in Hmarks.
    rewrite length_fmap in Hmarks. by apply Hmarks.
Qed.

(** X13.  A request that has been given 23 turns has ended, whatever the
    schedule gave the other requests in between and whatever the worlds
    answered. *)
Theorem ended_after_23_turns (ws : Worlds) (schedule : list nat)
    (requests : list Request) (i : nat) request :
  requests !! i = Some request ->
  (23 <= length (filter (fun j => j = i) schedule))%nat ->
  ∃ p o,
    threads (exec ws schedule (serve repr requests)) !! i = Some p ∧
    finished p = Some o.
Proof.
  intros Hrequest Hturns.
  destruct (exec_follow_turns ws schedule (email repr <$> requests) i (email repr request))
    as (wl & Hp & _ & Hlen & _).
  { by rewrite list_lookup_fmap, Hrequest. }
  destruct (email_follow_ends wl request) as [o Ho]; [lia |].
  unfold serve. eauto.
Qed.

End FurtherConcurrent.

(** ** The further properties on the sample inputs *)

Lemma dispatch_uses_configured_key_witness :
  (client, ann_mail, inr accepted) ∈ sends (trace sample_repr accepting ann) ∧
  api_key client = Some "SG.key"%string ∧
  omap client_built (trace sample_repr accepting ann) = [Some "SG.key"%string] ∧
  omap env_read (trace sample_repr accepting ann) =
    ["SENDGRID_TO_EMAIL"; "SENDGRID_FROM_EMAIL"; "SENDGRID_API_KEY"]%string.
Proof.
  assert (Hsend : (client, ann_mail, inr accepted)
                    ∈ sends (trace sample_repr accepting ann)) by find_elem.
  split; [exact Hsend |].
  exact (dispatch_uses_configured_key sample_repr accepting ann client ann_mail
           (inr accepted) Hsend).
Defined.

Lemma info_log_witness :
  json ann = inr ann_body ∧
  omap logged_info (trace sample_repr accepting ann) =
    ("Received contact form data: " +:+ format_value sample_repr ann_body)
      :: omap logged_info (in_span (trace sample_repr accepting ann)) ∧
  match outcome sample_repr accepting ann with
  | inr _ =>
      ∃ sg m response,
        sends (trace sample_repr accepting ann) = [(sg, m, inr response)] ∧
        omap logged_info (in_span (trace sample_repr accepting ann)) =
          ["SendGrid response: " +:+ pretty (status_code response)]
  | inl _ => omap logged_info (in_span (trace sample_repr accepting ann)) = []
  end.
Proof.
  split; [reflexivity |].
  exact (info_log sample_repr accepting ann ann_body eq_refl).
Defined.

Lemma span_lifecycle_witness :
  json ann = inr ann_body ∧
  omap span_opened (trace sample_repr refusing ann) = ["send_email"%string] ∧
  omap span_closed (trace sample_repr refusing ann) =
    [(1%nat,
      match outcome sample_repr refusing ann with inl e => Some e | inr _ => None end)] ∧
  last (trace sample_repr refusing ann) ≫= span_closed =
    Some (1%nat,
          match outcome sample_repr refusing ann with inl e => Some e | inr _ => None end) ∧
  Forall (fun op => told_span op = 1%nat)
    (omap span_told (trace sample_repr refusing ann)).
Proof.
  split; [reflexivity |].
  exact (span_lifecycle sample_repr refusing ann ann_body eq_refl).
Defined.

Lemma span_status_agrees_witness :
  json ann = inr ann_body ∧
  match outcome sample_repr refusing ann with
  | inr _ =>
      omap (told_for "email.status") (omap span_told (trace sample_repr refusing ann)) =
        [VStr "success"] ∧
      omap (told_for "email.error") (omap span_told (trace sample_repr refusing ann)) = [] ∧
      omap status_set (omap span_told (trace sample_repr refusing ann)) =
        [{| code := OK; description := None |}]
  | inl e =>
      ∃ e',
        e = HTTPException 500 ("SendGrid Error: " +:+ str e') ∧
        omap (told_for "email.status") (omap span_told (trace sample_repr refusing ann)) =
          [VStr "error"] ∧
        omap (told_for "email.error") (omap span_told (trace sample_repr refusing ann)) =
          [VStr (str e')] ∧
        omap status_set (omap span_told (trace sample_repr refusing ann)) =
          [{| code := ERROR; description := Some (str e') |};
           {| code := ERROR;
              description :=
                Some ("HTTPException: " +:+ "500: " +:+ "SendGrid Error: " +:+ str e') |}] ∧
        last (omap status_set (omap span_told (trace sample_repr refusing ann))) =
          Some (exit_status e)
  end.
Proof.
  split; [reflexivity |].
  exact (span_status_agrees sample_repr refusing ann ann_body eq_refl).
Defined.

Lemma first_missing_field_reported_witness :
  json bare = inr (VDict email_only) ∧
  List.find (missing email_only) lookup_order = Some "subject"%string ∧
  omap raised (in_span (trace sample_repr accepting bare)) = [KeyError "subject"] ∧
  respond (outcome sample_repr accepting bare) =
    JSONResponse 500
      (VDict {[ "detail" := VStr ("SendGrid Error: " +:+ "'" +:+ "subject" +:+ "'") ]}).
Proof.
  do 2 (split; [reflexivity |]).
  exact (first_missing_field_reported sample_repr accepting bare email_only
           "subject" eq_refl eq_refl).
Defined.

Lemma success_only_after_dispatch_witness :
  outcome sample_repr accepting ann =
    inr (VDict {[ "status" := VStr "success"; "code" := VInt 202 ]}) ∧
  ∃ obj name eml subj msg sg m response,
    json ann = inr obj ∧
    getitem obj "name" = inr name ∧
    getitem obj "email" = inr eml ∧
    getitem obj "subject" = inr subj ∧
    getitem obj "message" = inr msg ∧
    sends (trace sample_repr accepting ann) = [(sg, m, inr response)] ∧
    VDict {[ "status" := VStr "success"; "code" := VInt 202 ]} =
      VDict {[ "status" := VStr "success";
               "code" := VInt (status_code response) ]}.
Proof.
  split; [reflexivity |].
  exact (success_only_after_dispatch sample_repr accepting ann _ eq_refl).
Defined.

Lemma parsed_body_is_answered_witness :
  json no_subject = inr no_subject_body ∧
  ∃ status content,
    respond (outcome sample_repr accepting no_subject) = JSONResponse status content ∧
    (status = 200 ∨ status = 500).
Proof.
  split; [reflexivity |].
  exact (parsed_body_is_answered sample_repr accepting no_subject no_subject_body
           eq_refl).
Defined.

Lemma construction_failure_witness :
  Event (Mail_new (Some "owner@example.org"%string) (Some "form@example.org"%string)
           (VStr "Hello") "SG.abc123.def456<br />From: Ann") (inl key_included)
    ∈ trace sample_repr accepting keyed ∧
  constructed
    (Event (Mail_new (Some "owner@example.org"%string) (Some "form@example.org"%string)
              (VStr "Hello") "SG.abc123.def456<br />From: Ann") (inl key_included))
    = Some (Some "owner@example.org"%string, Some "form@example.org"%string,
            VStr "Hello", "SG.abc123.def456<br />From: Ann"%string) ∧
  raised
    (Event (Mail_new (Some "owner@example.org"%string) (Some "form@example.org"%string)
              (VStr "Hello") "SG.abc123.def456<br />From: Ann") (inl key_included))
    = Some key_included ∧
  omap env_read (trace sample_repr accepting keyed)
    = ["SENDGRID_TO_EMAIL"; "SENDGRID_FROM_EMAIL"]%string ∧
  omap client_built (trace sample_repr accepting keyed) = [] ∧
  omap reply_to_assigned (trace sample_repr accepting keyed) = [] ∧
  sends (trace sample_repr accepting keyed) = [] ∧
  respond (outcome sample_repr accepting keyed) =
    JSONResponse 500
      (VDict {[ "detail" := VStr ("SendGrid Error: " +:+ str key_included) ]}).
Proof.
  assert (Hin :
    Event (Mail_new (Some "owner@example.org"%string) (Some "form@example.org"%string)
             (VStr "Hello") "SG.abc123.def456<br />From: Ann") (inl key_included)
      ∈ trace sample_repr accepting keyed) by find_elem.
  split; [exact Hin |]. do 2 (split; [reflexivity |]).
  exact (construction_failure sample_repr accepting keyed _ _ key_included
           Hin eq_refl eq_refl).
Defined.

Lemma body_not_an_object_witness :
  json array = inr (VList []) ∧
  (∀ d, VList [] ≠ VDict d) ∧
  ∃ msg,
    getitem (VList []) "subject" = inl (TypeError msg) ∧
    omap looked_up (trace sample_repr accepting array) = [(VList [], "subject"%string)] ∧
    omap env_read (trace sample_repr accepting array) = [] ∧
    omap constructed (trace sample_repr accepting array) = [] ∧
    sends (trace sample_repr accepting array) = [] ∧
    respond (outcome sample_repr accepting array) =
      JSONResponse 500 (VDict {[ "detail" := VStr ("SendGrid Error: " +:+ msg) ]}).
Proof.
  assert (Hobj : ∀ d, VList [] ≠ VDict d) by (intros d; discriminate).
  split; [reflexivity |]. split; [exact Hobj |].
  exact (body_not_an_object sample_repr accepting array (VList []) eq_refl Hobj).
Defined.

Lemma other_fields_ignored_witness :
  json ann_again = inr ann_with_phone ∧
  json ann = inr ann_body ∧
  (∀ key, key ∈ fields -> getitem ann_body key = getitem ann_with_phone key) ∧
  outcome sample_repr accepting ann = outcome sample_repr accepting ann_again ∧
  sends (trace sample_repr accepting ann) = sends (trace sample_repr accepting ann_again) ∧
  omap span_told (trace sample_repr accepting ann)
    = omap span_told (trace sample_repr accepting ann_again) ∧
  omap logged_error (trace sample_repr accepting ann)
    = omap logged_error (trace sample_repr accepting ann_again).
Proof.
  assert (Hsame : ∀ key, key ∈ fields ->
                    getitem ann_body key = getitem ann_with_phone key).
  { intros key Hkey. unfold fields in Hkey.
    repeat (apply elem_of_cons in Hkey as [-> | Hkey]);
      [reflexivity .. | by apply elem_of_nil in Hkey]. }
  do 2 (split; [reflexivity |]). split; [exact Hsame |].
  exact (other_fields_ignored sample_repr accepting ann_again ann
           ann_with_phone ann_body eq_refl eq_refl Hsame).
Defined.

Lemma ended_after_23_turns_witness :
  [ann; bob] !! 1%nat = Some bob ∧
  (23 <= length (filter (fun j => j = 1%nat) taking_turns))%nat ∧
  ∃ p o,
    threads (exec first_come taking_turns (serve sample_repr [ann; bob])) !! 1%nat
      = Some p ∧
    finished p = Some o.
Proof.
  assert (Hturns : (23 <= length (filter (fun j => j = 1%nat) taking_turns))%nat)
    by (vm_compute; lia).
  split; [reflexivity |]. split; [exact Hturns |].
  exact (ended_after_23_turns sample_repr first_come taking_turns [ann; bob]
           1%nat bob eq_refl Hturns).
Defined.
